(** * Resume indexing backend: ingestion and search over two stores

    A shallow embedding of [backend/app/models.py], [backend/app/crud.py]
    and the two routes of [backend/app/main.py] ([ingest_resume] and
    [search]), with the properties of the dual-store protocol proved
    about it.

    Modelling choices.
    - Python [str] values are [string]s (characters are 8-bit [ascii]);
      an optional argument or a nullable column is an [option string].
    - The relational table is the list of its rows in retrieval order,
      the Chroma collection the list of its records in insertion order.
    - [Column.ilike] is SQL's case-insensitive LIKE as PostgreSQL (the
      store main.py names) evaluates it: [%] matches any run of
      characters, [_] any one character, a backslash makes the next
      pattern character literal, and a NULL column never matches.
      Letter case is folded on the ASCII letters.
    - The route bodies run in a small state-and-exception monad over a
      [World] holding both stores, so that a write that happened before
      a later step raised stays visible.  The outcomes that the code
      does not control (whether a store write raises, which identifier
      [uuid.uuid4] draws, the server clock) are fields of the world.
    - The text extractor ([utils.extract_text]) and the sentence encoder
      ([model.encode]) are parameters: any functions that return a value
      or raise. *)

From Stdlib Require Import String Ascii List Bool Arith ZArith Lia.
Import ListNotations.
Local Open Scope string_scope.

Set Implicit Arguments.

(** Python exceptions, identified by their message. *)
Definition Exn := string.

(** ** models.py *)

Module Models.

(** One row of table [resumes].  The string columns a caller may leave
    out are nullable, as in [schemas.ResumeMeta]. *)
Record Resume := mkResume {
  id : Z;
  name : option string;
  resumetype : option string;
  occupation : option string;
  filename : string;
  chroma_id : string;
  snippet : option string;
  created_at : Z
}.

End Models.
Import Models.

(** ** SQL pattern matching, as used by [Column.ilike] *)

Module Sql.

Inductive tok : Type :=
| AnyString            (* [%] *)
| AnyChar              (* [_] *)
| Lit (c : ascii).     (* the character itself *)

Definition like_escape : ascii := "\"%char.
Definition percent : ascii := "%"%char.
Definition underscore : ascii := "_"%char.

Definition tok_of (c : ascii) : tok :=
  if Ascii.eqb c percent then AnyString
  else if Ascii.eqb c underscore then AnyChar
  else Lit c.

(** Reading a pattern left to right; [pending] says that the previous
    character was an unescaped backslash.  A pattern that ends in a
    pending escape is rejected by the server. *)
Fixpoint like_scan (pending : bool) (p : string) : option (list tok) :=
  match p with
  | EmptyString => if pending then None else Some []
  | String c p' =>
      if pending then option_map (cons (Lit c)) (like_scan false p')
      else if Ascii.eqb c like_escape then like_scan true p'
      else option_map (cons (tok_of c)) (like_scan false p')
  end.

Definition like_tokens (p : string) : option (list tok) := like_scan false p.

(** ASCII case folding. *)
Definition lower (c : ascii) : ascii :=
  let n := nat_of_ascii c in
  if (65 <=? n)%nat && (n <=? 90)%nat then ascii_of_nat (n + 32) else c.

Definition same_letter (c d : ascii) : bool := Ascii.eqb (lower c) (lower d).

(** Does the whole of [s] match the token list? *)
Fixpoint like_match (ts : list tok) (s : string) {struct ts} : bool :=
  match ts with
  | [] => match s with EmptyString => true | String _ _ => false end
  | AnyString :: ts' =>
      (fix skip (s : string) : bool :=
         like_match ts' s
         || match s with
            | EmptyString => false
            | String _ s' => skip s'
            end) s
  | AnyChar :: ts' =>
      match s with
      | EmptyString => false
      | String _ s' => like_match ts' s'
      end
  | Lit c :: ts' =>
      match s with
      | EmptyString => false
      | String d s' => same_letter c d && like_match ts' s'
      end
  end.

(** [column ILIKE pattern] on one row: [None] is SQL's NULL. *)
Definition ilike (column : option string) (pattern : list tok) : option bool :=
  match column with
  | None => None
  | Some s => Some (like_match pattern s)
  end.

(** A WHERE clause keeps a row only when the condition is TRUE. *)
Definition is_true (v : option bool) : bool :=
  match v with Some true => true | _ => false end.

End Sql.
Import Sql.

(** ** Case-insensitive substring, in the words of the specification *)

Fixpoint lower_string (s : string) : string :=
  match s with
  | EmptyString => EmptyString
  | String c s' => String (lower c) (lower_string s')
  end.

(** [needle.lower() in hay.lower()] *)
Definition ci_substring (needle hay : string) : Prop :=
  exists pre suf, lower_string hay = pre ++ lower_string needle ++ suf.

Fixpoint prefix_ci (needle hay : string) : bool :=
  match needle with
  | EmptyString => true
  | String c n' =>
      match hay with
      | EmptyString => false
      | String d h' => same_letter c d && prefix_ci n' h'
      end
  end.

Fixpoint contains_ci (needle hay : string) : bool :=
  prefix_ci needle hay
  || match hay with
     | EmptyString => false
     | String _ h' => contains_ci needle h'
     end.


(** Characters that LIKE does not take literally. *)
Definition is_meta (c : ascii) : bool :=
  Ascii.eqb c percent || Ascii.eqb c underscore || Ascii.eqb c like_escape.

Fixpoint string_forallb (f : ascii -> bool) (s : string) : bool :=
  match s with
  | EmptyString => true
  | String c s' => f c && string_forallb f s'
  end.

Definition no_escape (s : string) : bool :=
  string_forallb (fun c => negb (Ascii.eqb c like_escape)) s.

(** ** The two stores, the world and the monad of the route bodies *)

Section Backend.

(** Embedding vectors: whatever [model.encode(text).tolist()] yields. *)
Variable Vec : Type.

(** [utils.extract_text(filename, data)]: text or an exception. *)
Variable extract_text : string -> list Byte.byte -> Exn + string.

(** [model.encode(text).tolist()]: a vector or an exception. *)
Variable encode : string -> Exn + Vec.

(** The [metadatas] entry written next to a document. *)
Record Tags := mkTags {
  tag_name : option string;
  tag_resumetype : option string;
  tag_occupation : option string;
  tag_filename : string
}.

(** One entry of the Chroma collection. *)
Record VectorRecord := mkVectorRecord {
  vid : string;
  document : string;
  embedding : Vec;
  metadata : Tags
}.

(** The collection [col]; [add_fault] is the exception its next [add]
    raises, if any. *)
Record Collection := mkCollection {
  records : list VectorRecord;
  add_fault : option Exn
}.

(** The database behind a [Session]: the rows of [resumes], the next
    primary key, the server clock, and the exception the next commit
    raises, if any. *)
Record Session := mkSession {
  rows : list Resume;
  next_id : Z;
  now : Z;
  commit_fault : option Exn
}.

(** Calls made to the collaborators, oldest first. *)
Inductive Call : Type :=
| CallExtract (fname : string)
| CallEncode (text : string)
| CallUuid4 (value : string)
| CallColAdd (ident : string) (ok : bool)
| CallCreateResume (ident : string) (ok : bool)
| CallQueryResumes.

Record World := mkWorld {
  col : Collection;
  db : Session;
  entropy : nat -> string;     (* what the n-th [uuid.uuid4()] returns *)
  draws : nat;                 (* how many identifiers were drawn *)
  calls : list Call
}.

Definition M (A : Type) : Type := World -> World * (Exn + A).

Definition ret {A} (a : A) : M A := fun w => (w, inr a).

Definition raise {A} (e : Exn) : M A := fun w => (w, inl e).

Definition bind {A B} (c : M A) (k : A -> M B) : M B :=
  fun w =>
    match c w with
    | (w', inr a) => k a w'
    | (w', inl e) => (w', inl e)
    end.

(** [try: c  except Exception as e: handler(e)] *)
Definition try_except {A} (c : M A) (handler : Exn -> M A) : M A :=
  fun w =>
    match c w with
    | (w', inr a) => (w', inr a)
    | (w', inl e) => handler e w'
    end.

Notation "x <- c ;; k" := (bind c (fun x => k))
  (at level 61, c at next level, right associativity).

Definition record_call (c : Call) : M unit :=
  fun w => (mkWorld (col w) (db w) (entropy w) (draws w) (calls w ++ [c])%list, inr tt).

(** ** crud.py *)

(** The keyword arguments of [create_resume]. *)
Record ResumeData := mkResumeData {
  d_name : option string;
  d_resumetype : option string;
  d_occupation : option string;
  d_filename : string;
  d_chroma_id : string;
  d_snippet : string
}.

(** [obj = Resume(..); db.add(obj); db.commit(); db.refresh(obj)], where
    the dots are the keyword arguments.
    Nothing is stored when the commit raises. *)
Definition create_resume (s : Session) (data : ResumeData) : Session * (Exn + Resume) :=
  match commit_fault s with
  | Some e => (s, inl e)
  | None =>
      let obj := mkResume (next_id s) (d_name data) (d_resumetype data)
                   (d_occupation data) (d_filename data) (d_chroma_id data)
                   (Some (d_snippet data)) (now s) in
      (mkSession (rows s ++ [obj])%list (next_id s + 1) (now s) (commit_fault s), inr obj)
  end.

(** Python truthiness of an optional string: [None] and [""] are false. *)
Definition truthy (s : option string) : bool :=
  match s with
  | Some (String _ _) => true
  | _ => false
  end.

(** How an f-string renders the value. *)
Definition fstr (s : option string) : string :=
  match s with
  | Some v => v
  | None => "None"
  end.

(** A filter of the query under construction: a column and the pattern
    it is compared to with ILIKE. *)
Record Criterion := mkCriterion {
  crit_column : Resume -> option string;
  crit_pattern : string
}.

Definition Query := list Criterion.

Definition filter_ (q : Query) (c : Criterion) : Query := (q ++ [c])%list.

(** The server compiles every pattern of the statement. *)
Fixpoint compile (q : Query) : option (list ((Resume -> option string) * list tok)) :=
  match q with
  | [] => Some []
  | c :: q' =>
      match like_tokens (crit_pattern c), compile q' with
      | Some ts, Some rest => Some ((crit_column c, ts) :: rest)
      | _, _ => None
      end
  end.

Definition row_passes (cs : list ((Resume -> option string) * list tok)) (r : Resume) : bool :=
  forallb (fun c => is_true (ilike (fst c r) (snd c))) cs.

(** [q.all()]: the rows for which every filter is TRUE, in table order. *)
Definition all (s : Session) (q : Query) : Exn + list Resume :=
  match compile q with
  | None => inl "LIKE pattern must not end with escape character"
  | Some cs => inr (filter (row_passes cs) (rows s))
  end.

Definition query_resumes (s : Session) (name resumetype occupation : option string)
  : Exn + list Resume :=
  let q : Query := [] in
  let q := if truthy name
           then filter_ q (mkCriterion Models.name ("%" ++ fstr name ++ "%"))
           else q in
  let q := if truthy resumetype
           then filter_ q (mkCriterion Models.resumetype ("%" ++ fstr resumetype ++ "%"))
           else q in
  let q := if truthy occupation
           then filter_ q (mkCriterion Models.occupation ("%" ++ fstr occupation ++ "%"))
           else q in
  all s q.

(** ** main.py *)

Record UploadFile := mkUploadFile {
  upload_filename : string;
  upload_data : list Byte.byte
}.

Definition with_db {A} (f : Session -> Session * (Exn + A)) : M A :=
  fun w =>
    let (s', r) := f (db w) in
    (mkWorld (col w) s' (entropy w) (draws w) (calls w), r).

(** [utils.extract_text(file.filename, data)] *)
Definition call_extract_text (fname : string) (data : list Byte.byte) : M string :=
  _ <- record_call (CallExtract fname) ;;
  match extract_text fname data with
  | inl e => raise e
  | inr text => ret text
  end.

(** [model.encode(text).tolist()] *)
Definition call_encode (text : string) : M Vec :=
  _ <- record_call (CallEncode text) ;;
  match encode text with
  | inl e => raise e
  | inr v => ret v
  end.

(** [str(uuid.uuid4())] *)
Definition uuid4 : M string :=
  fun w =>
    let u := entropy w (draws w) in
    (mkWorld (col w) (db w) (entropy w) (S (draws w)) (calls w ++ [CallUuid4 u])%list, inr u).

(** [col.add(ids=[i], documents=[text], embeddings=[e], metadatas=[m])] *)
Definition col_add (i : string) (text : string) (e : Vec) (m : Tags) : M unit :=
  fun w =>
    match add_fault (col w) with
    | Some ex =>
        (mkWorld (col w) (db w) (entropy w) (draws w)
           (calls w ++ [CallColAdd i false])%list, inl ex)
    | None =>
        (mkWorld (mkCollection (records (col w) ++ [mkVectorRecord i text e m])%list
                               (add_fault (col w)))
                 (db w) (entropy w) (draws w)
                 (calls w ++ [CallColAdd i true])%list, inr tt)
    end.

(** [crud.create_resume(db, ..)] through the request's session. *)
Definition crud_create_resume (data : ResumeData) : M Resume :=
  fun w =>
    match with_db (fun s => create_resume s data) w with
    | (w', inr obj) =>
        (mkWorld (col w') (db w') (entropy w') (draws w')
           (calls w' ++ [CallCreateResume (d_chroma_id data) true])%list, inr obj)
    | (w', inl ex) =>
        (mkWorld (col w') (db w') (entropy w') (draws w')
           (calls w' ++ [CallCreateResume (d_chroma_id data) false])%list, inl ex)
    end.

(** [crud.query_resumes(db, name, resumetype, occupation)] through the
    request's session. *)
Definition crud_query_resumes (name resumetype occupation : option string)
  : M (list Resume) :=
  _ <- record_call CallQueryResumes ;;
  with_db (fun s => (s, query_resumes s name resumetype occupation)).

(** [text[:300]] *)
Definition slice_to (n : nat) (text : string) : string := substring 0 n text.

(** The route [POST /ingest].  Every [try] block logs the exception
    and raises it again. *)
Definition ingest_resume (file : UploadFile) (name resumetype occupation : option string)
  : M Resume :=
  let data := upload_data file in
  text <- try_except (call_extract_text (upload_filename file) data)
                     (fun e => raise e) ;;
  embedding <- try_except (call_encode text) (fun e => raise e) ;;
  chroma_id <- uuid4 ;;
  _ <- try_except
         (col_add chroma_id text embedding
            (mkTags name resumetype occupation (upload_filename file)))
         (fun e => raise e) ;;
  obj <- try_except
           (crud_create_resume
              (mkResumeData name resumetype occupation (upload_filename file)
                 chroma_id (slice_to 300 text)))
           (fun e => raise e) ;;
  ret obj.

Definition is_empty {A} (l : list A) : bool :=
  match l with [] => true | _ :: _ => false end.

(** The route [POST /search]. *)
Definition search (name resumetype occupation : option string) : M (list Resume) :=
  if truthy name then
    result <- crud_query_resumes name None None ;;
    if is_empty result then ret [] else ret result
  else
    crud_query_resumes None resumetype occupation.

End Backend.

(** The world after further collaborator calls were recorded. *)
Definition logged {Vec : Type} (w : World Vec) (evs : list Call) : World Vec :=
  mkWorld (col w) (db w) (entropy w) (draws w) (calls w ++ evs).

(** ** What a search is expected to keep *)

(** The tokens of a pattern without escape characters: every character
    stands for itself except the two wildcards. *)
Fixpoint plain_tokens (s : string) : list tok :=
  match s with
  | EmptyString => []
  | String c s' => tok_of c :: plain_tokens s'
  end.

(** The tokens of the pattern [%value%] that [query_resumes] builds. *)
Definition pattern_of (value : string) : list tok :=
  match like_tokens ("%" ++ value ++ "%") with
  | Some ts => ts
  | None => []
  end.

(** One filter argument against one column, as the code evaluates it:
    an absent or empty argument imposes nothing, any other one must
    match the column as the pattern [%value%]. *)
Definition field_like (arg column : option string) : bool :=
  match arg with
  | Some (String c v) => is_true (ilike column (pattern_of (String c v)))
  | _ => true
  end.


(** The rows a search keeps: the name alone when one is given, otherwise
    both remaining fields. *)
Definition search_keeps (field : option string -> option string -> bool)
    (name resumetype occupation : option string) (r : Resume) : bool :=
  match name with
  | Some (String _ _) => field name (Models.name r)
  | _ => field resumetype (Models.resumetype r) && field occupation (Models.occupation r)
  end.


(** ** A small deployment used in the examples *)

Definition row_jane : Resume :=
  mkResume 1 (Some "jane doe") (Some "Engineering") (Some "Software Engineer")
    "r1.txt" "uuid-1" (Some "jane doe, software engineer") 100.

Definition row_bob : Resume :=
  mkResume 2 (Some "Bob Ray") (Some "Sales") (Some "Account Manager")
    "r2.txt" "uuid-2" (Some "Bob Ray, account manager") 101.

(** A name written with its directory domain. *)
Definition row_domain : Resume :=
  mkResume 3 (Some "corp\jane") None None "r3.txt" "uuid-3" (Some "") 102.

Definition example_session : Session :=
  mkSession [row_jane; row_bob; row_domain] 4 103 None.

Definition example_record (r : Resume) (text : string) : VectorRecord (list Z) :=
  mkVectorRecord (chroma_id r) text [Z.of_nat (String.length text)]
    (mkTags (Models.name r) (resumetype r) (occupation r) (filename r)).

Definition example_collection : Collection (list Z) :=
  mkCollection
    [example_record row_jane "jane doe, software engineer";
     example_record row_bob "Bob Ray, account manager";
     example_record row_domain ""]
    None.

(** The n-th identifier drawn, for n below ten. *)
Definition example_entropy (n : nat) : string :=
  "uuid-new-" ++ String (ascii_of_nat (48 + n)) "".

Definition example_world : World (list Z) :=
  mkWorld example_collection example_session example_entropy 0 [].

(** The same deployment with the vector index refusing writes. *)
Definition example_world_index_down : World (list Z) :=
  mkWorld (mkCollection (records example_collection) (Some "index unavailable"))
    example_session example_entropy 0 [].

(** The same deployment with the database refusing commits. *)
Definition example_world_db_down : World (list Z) :=
  mkWorld example_collection
    (mkSession (rows example_session) 4 103 (Some "database unavailable"))
    example_entropy 0 [].

(** An extractor that reads plain-text files only. *)
Definition example_extract (fname : string) (data : list Byte.byte) : Exn + string :=
  if String.eqb (substring (String.length fname - 4) 4 fname) ".txt"
  then inr (string_of_list_byte data)
  else inl "Unsupported file type".

(** An encoder that refuses empty input. *)
Definition example_encode (text : string) : Exn + list Z :=
  match text with
  | EmptyString => inl "cannot encode empty text"
  | _ => inr [Z.of_nat (String.length text)]
  end.

Definition example_upload : UploadFile :=
  mkUploadFile "r1.txt" (list_byte_of_string "Jane Doe, Software Engineer").

(** ** Vocabulary for the ingestion properties *)

(** No stored record and no stored row carries the identifier. *)
Definition unused_id {Vec : Type} (w : World Vec) (i : string) : Prop :=
  (forall v, In v (records (col w)) -> vid v <> i)
  /\ (forall r, In r (rows (db w)) -> chroma_id r <> i).

(** The world in which the collection gained one record, one more
    identifier was drawn and further calls were recorded. *)
Definition after_add {Vec : Type} (w : World Vec) (v : VectorRecord Vec)
    (s : Session) (evs : list Call) : World Vec :=
  mkWorld (mkCollection (records (col w) ++ [v]) (add_fault (col w)))
    s (entropy w) (S (draws w)) (calls w ++ evs).

(** The created row, as the database returns it after the commit. *)
Definition created_row (s : Session) (name rt occ : option string)
    (fname ident text : string) : Resume :=
  mkResume (next_id s) name rt occ fname ident (Some (slice_to 300 text)) (now s).

(** The request of Scenario A and its outcome on the example deployment. *)
Definition example_run : World (list Z) * (Exn + Resume) :=
  ingest_resume example_extract example_encode example_upload
    (Some "Jane Doe") (Some "Engineering") (Some "Software Engineer")
    example_world.

Definition example_obj : Resume :=
  mkResume 4 (Some "Jane Doe") (Some "Engineering") (Some "Software Engineer")
    "r1.txt" "uuid-new-0" (Some "Jane Doe, Software Engineer") 103.

(** A file the example extractor does not read. *)
Definition example_upload_exe : UploadFile :=
  mkUploadFile "cv.exe" (list_byte_of_string "MZ").

(** A plain-text file with nothing in it. *)
Definition example_upload_empty : UploadFile :=
  mkUploadFile "empty.txt" [].

Definition example_ingest (file : UploadFile) (w : World (list Z))
  : World (list Z) * (Exn + Resume) :=
  ingest_resume example_extract example_encode file
    (Some "Jane Doe") (Some "Engineering") (Some "Software Engineer") w.

Definition example_run_exe := example_ingest example_upload_exe example_world.
Definition example_run_empty := example_ingest example_upload_empty example_world.
Definition example_run_index_down :=
  example_ingest example_upload example_world_index_down.
Definition example_run_db_down :=
  example_ingest example_upload example_world_db_down.

(** ** main.py, start-up: the collection is fetched, or created when
    there is none *)

(** [COLLECTION = "resumes_collection"] *)
Definition COLLECTION : string := "resumes_collection".

Section Startup.

Variable Vec : Type.

(** What a [PersistentClient] holds on disk: its collections by name. *)
Definition Client := list (string * Collection Vec).

Fixpoint find_collection (n : string) (c : Client) : option (Collection Vec) :=
  match c with
  | [] => None
  | (m, k) :: c' => if String.eqb m n then Some k else find_collection n c'
  end.

(** [client.get_collection(n)]: raises when there is no such collection. *)
Definition get_collection (c : Client) (n : string) : Exn + Collection Vec :=
  match find_collection n c with
  | Some k => inr k
  | None => inl ("Collection " ++ n ++ " does not exist.")
  end.

(** [client.create_collection(n)]: an empty collection, or an exception
    when the name is taken. *)
Definition create_collection (c : Client) (n : string)
  : Client * (Exn + Collection Vec) :=
  match find_collection n c with
  | Some _ => (c, inl ("Collection " ++ n ++ " already exists."))
  | None =>
      let k := mkCollection (@nil (VectorRecord Vec)) None in
      ((c ++ [(n, k)])%list, inr k)
  end.

(** [try: col = client.get_collection(COLLECTION)
     except: col = client.create_collection(COLLECTION)] *)
Definition connect_chroma (c : Client) : Client * (Exn + Collection Vec) :=
  match get_collection c COLLECTION with
  | inr k => (c, inr k)
  | inl _ => create_collection c COLLECTION
  end.

End Startup.

(** ** main.py, the routes behind their session dependency *)

Section Service.

Variable Vec : Type.
Variable extract_text : string -> list Byte.byte -> Exn + string.
Variable encode : string -> Exn + Vec.

(** The process: the world of the two stores and the sessions that
    [SessionLocal] handed out and that were closed again. *)
Record Server := mkServer {
  world : World Vec;
  sessions_opened : nat;
  sessions_closed : nat
}.

(** The dependency [db]: [s = SessionLocal()], the route runs where the
    generator yields, and [s.close()] runs in the [finally] block. *)
Definition with_session {A} (route : M Vec A) (sv : Server) : Server * (Exn + A) :=
  let opened := S (sessions_opened sv) in
  let (w', r) := route (world sv) in
  (mkServer w' opened (S (sessions_closed sv)), r).

(** The route [GET /]. *)
Definition read_root : string * string :=
  ("status", "Backend running successfully").

Inductive Request : Type :=
| GetRoot
| PostIngest (file : UploadFile) (name resumetype occupation : option string)
| PostSearch (name resumetype occupation : option string).

Inductive Response : Type :=
| RootBody (body : string * string)
| IngestResult (r : Exn + Resume)
| SearchResult (r : Exn + list Resume).

(** One request, dispatched to its route. *)
Definition handle (rq : Request) (sv : Server) : Server * Response :=
  match rq with
  | GetRoot => (sv, RootBody read_root)
  | PostIngest file n t o =>
      let (sv', r) := with_session (ingest_resume extract_text encode file n t o) sv in
      (sv', IngestResult r)
  | PostSearch n t o =>
      let (sv', r) := with_session (search n t o) sv in
      (sv', SearchResult r)
  end.

(** Requests served one after the other. *)
Fixpoint serve (rqs : list Request) (sv : Server) : Server * list Response :=
  match rqs with
  | [] => (sv, [])
  | rq :: rest =>
      let (sv1, r) := handle rq sv in
      let (sv2, rs) := serve rest sv1 in
      (sv2, r :: rs)
  end.

(** Requests that open a session. *)
Definition uses_session (rq : Request) : bool :=
  match rq with
  | GetRoot => false
  | _ => true
  end.

End Service.


(** Is the column filled in? *)
Definition not_null (column : option string) : bool :=
  match column with
  | Some _ => true
  | None => false
  end.

(** Two optional arguments that differ in letter case at most. *)
Definition same_ci (a b : option string) : Prop :=
  match a, b with
  | Some x, Some y => lower_string x = lower_string y
  | None, None => True
  | _, _ => False
  end.

(** Two rows that differ in the letter case of the three searchable
    columns at most. *)
Definition same_ci_row (r r' : Resume) : Prop :=
  same_ci (Models.name r) (Models.name r')
  /\ same_ci (Models.resumetype r) (Models.resumetype r')
  /\ same_ci (Models.occupation r) (Models.occupation r').

(** Tokens that match the same characters. *)
Definition tok_same (t t' : tok) : Prop :=
  match t, t' with
  | AnyString, AnyString => True
  | AnyChar, AnyChar => True
  | Lit c, Lit d => lower c = lower d
  | _, _ => False
  end.

(** A client that holds another collection only, and a server on the
    example deployment. *)
Definition example_client : Client (list Z) :=
  [("drafts", mkCollection [example_record row_bob "draft"] None)].




(** The example deployment with Jane's row stored a second time in
    capitals. *)
Definition row_jane_caps : Resume :=
  mkResume 5 (Some "JANE DOE") (Some "ENGINEERING") (Some "Software ENGINEER")
    "r5.txt" "uuid-5" (Some "JANE DOE") 104.

Definition example_world_caps : World (list Z) :=
  mkWorld example_collection
    (mkSession [row_jane; row_bob; row_jane_caps] 6 105 None)
    example_entropy 0 [].

(** ** Basic facts about LIKE matching *)

Lemma like_match_percent ts s :
  like_match (AnyString :: ts) s =
  like_match ts s
  || match s with
     | EmptyString => false
     | String _ s' => like_match (AnyString :: ts) s'
     end.
Proof. destruct s; reflexivity. Qed.

Lemma like_match_percent_here ts s :
  like_match ts s = true -> like_match (AnyString :: ts) s = true.
Proof. intros H. rewrite like_match_percent, H. reflexivity. Qed.

Lemma like_match_percent_later ts c s :
  like_match (AnyString :: ts) s = true ->
  like_match (AnyString :: ts) (String c s) = true.
Proof.
  intros H. rewrite like_match_percent, H. apply orb_true_r.
Qed.

Lemma like_match_only_percent s : like_match [AnyString] s = true.
Proof.
  induction s as [|c s IH].
  - reflexivity.
  - rewrite like_match_percent, IH. apply orb_true_r.
Qed.

(** Scanning never stops on a pending escape when the pattern is closed
    by a percent sign: the sign is either escaped or a wildcard. *)
Lemma like_scan_closed v : forall pending,
  exists ts, like_scan pending (v ++ "%") = Some ts.
Proof.
  induction v as [|c v IH]; intros pending; simpl.
  - destruct pending; simpl; eexists; reflexivity.
  - destruct pending.
    + destruct (IH false) as [ts ->]. simpl. eexists; reflexivity.
    + destruct (Ascii.eqb c like_escape).
      * apply IH.
      * destruct (IH false) as [ts ->]. simpl. eexists; reflexivity.
Qed.

Lemma like_tokens_pattern v :
  exists ts, like_tokens ("%" ++ v ++ "%") = Some (AnyString :: ts).
Proof.
  unfold like_tokens. simpl.
  destruct (like_scan_closed v false) as [ts ->]. simpl.
  exists ts. reflexivity.
Qed.

Lemma like_scan_plain v : forall rest,
  no_escape v = true ->
  like_scan false (v ++ rest) =
  option_map (fun ts => (plain_tokens v ++ ts)%list) (like_scan false rest).
Proof.
  induction v as [|c v IH]; intros rest H; simpl.
  - destruct (like_scan false rest); reflexivity.
  - simpl in H. apply andb_prop in H. destruct H as [Hc Hv].
    apply negb_true_iff in Hc. rewrite Hc.
    rewrite (IH rest Hv).
    destruct (like_scan false rest); reflexivity.
Qed.

Lemma pattern_of_plain v :
  no_escape v = true ->
  pattern_of v = (AnyString :: plain_tokens v ++ [AnyString])%list.
Proof.
  intros H. unfold pattern_of, like_tokens. simpl.
  rewrite (like_scan_plain v "%" H). reflexivity.
Qed.

Lemma pattern_of_tokens v : like_tokens ("%" ++ v ++ "%") = Some (pattern_of v).
Proof.
  unfold pattern_of.
  destruct (like_tokens_pattern v) as [ts ->]. reflexivity.
Qed.




(** With wildcards allowed in the value, a case-insensitive prefix is
    still matched: a wildcard also matches itself. *)
Lemma like_match_prefix_complete v : forall s,
  prefix_ci v s = true ->
  like_match (plain_tokens v ++ [AnyString]) s = true.
Proof.
  induction v as [|c v IH]; intros s H.
  - apply like_match_only_percent.
  - destruct s as [|d s]; simpl in H; [discriminate|].
    apply andb_prop in H. destruct H as [Hcd Hv].
    specialize (IH s Hv).
    change (plain_tokens (String c v) ++ [AnyString])%list
      with (tok_of c :: plain_tokens v ++ [AnyString])%list.
    unfold tok_of.
    destruct (Ascii.eqb c percent).
    + apply like_match_percent_later, like_match_percent_here, IH.
    + destruct (Ascii.eqb c underscore); simpl.
      * exact IH.
      * rewrite Hcd. exact IH.
Qed.

Lemma like_match_contains_complete v : forall s,
  contains_ci v s = true ->
  like_match (AnyString :: plain_tokens v ++ [AnyString]) s = true.
Proof.
  intros s. induction s as [|d s IH]; intros H.
  - simpl in H. rewrite orb_false_r in H.
    apply like_match_percent_here, like_match_prefix_complete, H.
  - simpl in H. apply orb_true_iff in H. destruct H as [H|H].
    + apply like_match_percent_here, like_match_prefix_complete, H.
    + apply like_match_percent_later, IH, H.
Qed.

(** ** The boolean substring test agrees with the specification's wording *)

Lemma same_letter_eq c d : same_letter c d = true <-> lower c = lower d.
Proof. unfold same_letter. apply Ascii.eqb_eq. Qed.

Lemma prefix_ci_iff v : forall s,
  prefix_ci v s = true <-> exists suf, lower_string s = lower_string v ++ suf.
Proof.
  induction v as [|c v IH]; intros s; simpl.
  - split; [intros _; exists (lower_string s); reflexivity | reflexivity].
  - destruct s as [|d s]; simpl.
    + split; [discriminate | intros [suf H]; discriminate].
    + rewrite andb_true_iff, same_letter_eq, IH. split.
      * intros [Hcd [suf Hs]]. exists suf. rewrite Hcd, Hs. reflexivity.
      * intros [suf H]. injection H as Hd Hs. split; [congruence | now exists suf].
Qed.

Lemma contains_ci_iff v : forall s,
  contains_ci v s = true <-> ci_substring v s.
Proof.
  unfold ci_substring. intros s. induction s as [|d s IH]; simpl.
  - rewrite orb_false_r, prefix_ci_iff. simpl. split.
    + intros [suf H]. exists "", suf. exact H.
    + intros [pre [suf H]]. destruct pre as [|p pre]; simpl in H.
      * now exists suf.
      * discriminate.
  - rewrite orb_true_iff, prefix_ci_iff, IH. simpl. split.
    + intros [[suf H] | [pre [suf H]]].
      * exists "", suf. exact H.
      * exists (String (lower d) pre), suf. simpl. rewrite H. reflexivity.
    + intros [pre [suf H]]. destruct pre as [|p pre]; simpl in H.
      * left. now exists suf.
      * right. injection H as _ H. now exists pre, suf.
Qed.

(** ** Search *)

Section SearchProperties.

Variable Vec : Type.
Implicit Types w : World Vec.

(** What [crud.query_resumes] returns: it never raises, and keeps the
    rows on which each given filter matches. *)
Lemma query_resumes_rows s name rt occ :
  query_resumes s name rt occ =
  inr (filter (fun r => field_like name (Models.name r)
                        && (field_like rt (Models.resumetype r)
                            && field_like occ (Models.occupation r)))
              (rows s)).
Proof.
  unfold query_resumes, all, filter_.
  destruct name as [[|c1 v1]|], rt as [[|c2 v2]|], occ as [[|c3 v3]|];
    cbn [truthy fstr app compile crit_pattern crit_column];
    rewrite ?pattern_of_tokens;
    f_equal; apply filter_ext; intros r; unfold row_passes;
    cbn [forallb fst snd field_like]; rewrite ?andb_true_r; reflexivity.
Qed.

(** One run of the search route. *)
Lemma search_run name rt occ w :
  search name rt occ w =
  (logged w [CallQueryResumes],
   inr (filter (search_keeps field_like name rt occ) (rows (db w)))).
Proof.
  unfold search, crud_query_resumes, bind, record_call, with_db, logged.
  destruct name as [[|c v]|]; cbn [truthy db col entropy draws calls];
    rewrite query_resumes_rows.
  - reflexivity.
  - assert (E : filter (fun r => field_like (Some (String c v)) (Models.name r)
                                 && (field_like None (Models.resumetype r)
                                     && field_like None (Models.occupation r)))
                       (rows (db w))
                = filter (search_keeps field_like (Some (String c v)) rt occ)
                         (rows (db w))).
    { apply filter_ext. intros r. cbn [search_keeps field_like].
      rewrite andb_true_r. reflexivity. }
    rewrite E. clear E.
    destruct (filter _ _); reflexivity.
  - reflexivity.
Qed.


Lemma is_true_ilike_some ts s : is_true (ilike (Some s) ts) = like_match ts s.
Proof. simpl. destruct (like_match ts s); reflexivity. Qed.


Lemma filter_all_true (A : Type) (l : list A) : filter (fun _ => true) l = l.
Proof. induction l as [|a l IH]; simpl; congruence. Qed.





(** C10: an empty string in any of the three arguments acts as an absent
    argument: an empty name sends the search down the branch without a
    name, where only the two other arguments filter, and three empty
    strings return every stored row. *)
Theorem search_empty_is_absent name rt occ w :
  search (Some "") rt occ w = search None rt occ w
  /\ search name (Some "") occ w = search name None occ w
  /\ search name rt (Some "") w = search name rt None w
  /\ snd (search (Some "") rt occ w)
     = inr (filter (fun r => field_like rt (Models.resumetype r)
                             && field_like occ (Models.occupation r))
                   (rows (db w)))
  /\ snd (search (Some "") (Some "") (Some "") w) = inr (rows (db w)).
Proof.
  rewrite !search_run. refine (conj _ (conj _ (conj _ (conj _ _)))).
  - reflexivity.
  - destruct name as [[|c v]|]; reflexivity.
  - assert (E : forall r, search_keeps field_like name rt (Some "") r
                          = search_keeps field_like name rt None r).
    { intros r. destruct name as [[|c v]|]; reflexivity. }
    rewrite (filter_ext _ _ E). reflexivity.
  - reflexivity.
  - cbn [snd]. f_equal. apply filter_all_true.
Qed.

End SearchProperties.

(** ** Slices and logs *)

Lemma slice_to_length n : forall s,
  String.length (slice_to n s) = Nat.min n (String.length s).
Proof.
  unfold slice_to. induction n as [|n IH]; intros s.
  - destruct s; reflexivity.
  - destruct s as [|c s]; [reflexivity|].
    cbn [substring String.length Nat.min]. rewrite IH. reflexivity.
Qed.

Lemma slice_to_prefix n : forall s, exists rest, s = slice_to n s ++ rest.
Proof.
  unfold slice_to. induction n as [|n IH]; intros s.
  - exists s. destruct s; reflexivity.
  - destruct s as [|c s]; [exists ""; reflexivity|].
    destruct (IH s) as [rest Hrest]. exists rest.
    cbn [substring append]. rewrite <- Hrest. reflexivity.
Qed.

Lemma slice_to_short n : forall s, String.length s <= n -> slice_to n s = s.
Proof.
  unfold slice_to. induction n as [|n IH]; intros s H.
  - destruct s; [reflexivity | simpl in H; lia].
  - destruct s as [|c s]; [reflexivity|].
    cbn [substring]. rewrite IH; [reflexivity | simpl in H; lia].
Qed.

Lemma cons_eq_app_cons (A : Type) (a x : A) (l before after : list A) :
  a :: l = (before ++ x :: after)%list ->
  (before = [] /\ a = x /\ l = after)
  \/ (exists b, before = a :: b /\ l = (b ++ x :: after)%list).
Proof.
  destruct before as [|b0 b]; simpl; intros H; injection H as H1 H2.
  - left. auto.
  - right. exists b. subst. auto.
Qed.

Lemma nil_eq_app_cons (A : Type) (x : A) (before after : list A) :
  [] = (before ++ x :: after)%list -> False.
Proof. destruct before; discriminate. Qed.

(** ** Ingestion *)

Section IngestProperties.

Variable Vec : Type.
Variable extract_text : string -> list Byte.byte -> Exn + string.
Variable encode : string -> Exn + Vec.
Implicit Types w : World Vec.

(** One run of the ingestion route, by the first step that raises. *)
Lemma ingest_resume_run file name rt occ w :
  ingest_resume extract_text encode file name rt occ w =
  let fname := upload_filename file in
  let u := entropy w (draws w) in
  match extract_text fname (upload_data file) with
  | inl e => (logged w [CallExtract fname], inl e)
  | inr text =>
      match encode text with
      | inl e => (logged w [CallExtract fname; CallEncode text], inl e)
      | inr emb =>
          let v := mkVectorRecord u text emb (mkTags name rt occ fname) in
          match add_fault (col w) with
          | Some e =>
              (mkWorld (col w) (db w) (entropy w) (S (draws w))
                 (calls w ++ [CallExtract fname; CallEncode text; CallUuid4 u;
                              CallColAdd u false]),
               inl e)
          | None =>
              match commit_fault (db w) with
              | Some e =>
                  (after_add w v (db w)
                     [CallExtract fname; CallEncode text; CallUuid4 u;
                      CallColAdd u true; CallCreateResume u false],
                   inl e)
              | None =>
                  let obj := created_row (db w) name rt occ fname u text in
                  (after_add w v
                     (mkSession (rows (db w) ++ [obj]) (next_id (db w) + 1)
                        (now (db w)) (commit_fault (db w)))
                     [CallExtract fname; CallEncode text; CallUuid4 u;
                      CallColAdd u true; CallCreateResume u true],
                   inr obj)
              end
          end
      end
  end.
Proof.
  destruct w as [[recs afault] [rws nid clock cfault] ent dr cl].
  cbv beta iota zeta delta
    [ingest_resume bind try_except call_extract_text call_encode uuid4 col_add
     crud_create_resume with_db create_resume record_call raise ret logged
     after_add created_row col db entropy draws calls records add_fault rows
     next_id now commit_fault d_chroma_id d_name d_resumetype d_occupation
     d_filename d_snippet].
  destruct (extract_text (upload_filename file) (upload_data file)) as [e|text];
    [reflexivity|].
  destruct (encode text) as [e|emb]; [rewrite <- ?app_assoc; reflexivity|].
  destruct afault as [e|]; [rewrite <- ?app_assoc; reflexivity|].
  destruct cfault as [e|]; rewrite <- ?app_assoc; reflexivity.
Qed.

(** Case analysis on a run, by the step at which it stopped. *)
Ltac ingest_cases H :=
  rewrite ingest_resume_run in H; cbv zeta in H;
  destruct (extract_text _ _) as [?e|?text] eqn:?Hextract in H;
  [| destruct (encode _) as [?e|?emb] eqn:?Hencode in H;
     [| destruct (add_fault _) as [?e|] eqn:?Hadd in H;
        [| destruct (commit_fault _) as [?e|] eqn:?Hcommit in H ]]];
  try discriminate H; injection H as ? ?; subst.

(** Walking a concrete log against a decomposition around one call. *)
Ltac walk_log :=
  repeat match goal with
  | H : _ :: _ = (_ ++ _ :: _)%list |- _ =>
      apply cons_eq_app_cons in H;
      destruct H as [[? [? ?]] | [? [? H]]]; subst; try discriminate
  | H : [] = (_ ++ _ :: _)%list |- _ => destruct (nil_eq_app_cons _ _ _ H)
  end.

(** Membership in a concrete log. *)
Ltac in_log H :=
  simpl in H;
  repeat (destruct H as [H|H]; [try discriminate H|]); try contradiction H.

(** C2: a successful ingestion appends exactly one record to the
    collection and exactly one row to the table, and both carry the
    identifier drawn in this ingestion; when that identifier was not in
    use before, no other record and no other row carries it. *)
Theorem ingest_success_consistent file name rt occ w w' obj :
  ingest_resume extract_text encode file name rt occ w = (w', inr obj) ->
  exists v,
    records (col w') = (records (col w) ++ [v])%list
    /\ rows (db w') = (rows (db w) ++ [obj])%list
    /\ vid v = chroma_id obj
    /\ chroma_id obj = entropy w (draws w)
    /\ In (CallUuid4 (chroma_id obj)) (calls w')
    /\ (unused_id w (chroma_id obj) ->
        (forall v', In v' (records (col w')) -> vid v' = chroma_id obj -> v' = v)
        /\ (forall r, In r (rows (db w')) -> chroma_id r = chroma_id obj -> r = obj)).
Proof.
  intros H. ingest_cases H.
  eexists. cbn [after_add created_row col db records rows vid chroma_id calls].
  refine (conj eq_refl (conj eq_refl (conj eq_refl (conj eq_refl (conj _ _))))).
  - apply in_or_app. right. simpl. auto.
  - intros [Hrec Hrow]. split.
    + intros v' Hin Hid. apply in_app_or in Hin. destruct Hin as [Hin|Hin].
      * destruct (Hrec v' Hin Hid).
      * simpl in Hin. destruct Hin as [<-|[]]. reflexivity.
    + intros r Hin Hid. apply in_app_or in Hin. destruct Hin as [Hin|Hin].
      * destruct (Hrow r Hin Hid).
      * simpl in Hin. destruct Hin as [<-|[]]. reflexivity.
Qed.

(** C4: after a successful ingestion the stored snippet is the slice
    [text[:300]] of the very text handed to the encoder: it has at most
    300 characters (exactly 300 when the text has that many), it is a
    prefix of the text, and it is the whole text when that is no longer
    than 300 characters. *)
Theorem ingest_snippet_bound file name rt occ w w' obj :
  ingest_resume extract_text encode file name rt occ w = (w', inr obj) ->
  exists text rest,
    calls w' = (calls w ++ [CallExtract (upload_filename file); CallEncode text;
                            CallUuid4 (chroma_id obj);
                            CallColAdd (chroma_id obj) true;
                            CallCreateResume (chroma_id obj) true])%list
    /\ snippet obj = Some (slice_to 300 text)
    /\ String.length (slice_to 300 text) = Nat.min 300 (String.length text)
    /\ String.length (slice_to 300 text) <= 300
    /\ text = slice_to 300 text ++ rest
    /\ (String.length text <= 300 -> snippet obj = Some text).
Proof.
  intros H. ingest_cases H.
  destruct (slice_to_prefix 300 text) as [rest Hrest].
  exists text, rest.
  cbn [after_add created_row calls snippet chroma_id].
  refine (conj eq_refl (conj eq_refl (conj _ (conj _ (conj Hrest _))))).
  - apply slice_to_length.
  - rewrite slice_to_length. apply Nat.le_min_l.
  - intros Hshort. rewrite (@slice_to_short 300 text Hshort). reflexivity.
Qed.

(** C3: in every run of the ingestion, a call that writes the metadata
    row comes only after a call that wrote the vector record with the
    same identifier and returned; when the vector write raised, no
    metadata write was attempted and both stores are as before; when the
    vector write returned and the metadata write raised, the record is
    in the collection and the table is as before, so that no row carries
    the record's identifier unless one did already. *)
Theorem ingest_write_order file name rt occ w w' res :
  ingest_resume extract_text encode file name rt occ w = (w', res) ->
  exists evs,
    calls w' = (calls w ++ evs)%list
    /\ (forall before i ok after,
          evs = (before ++ CallCreateResume i ok :: after)%list ->
          In (CallColAdd i true) before)
    /\ (forall i, In (CallColAdd i false) evs ->
          (forall j ok, ~ In (CallCreateResume j ok) evs)
          /\ col w' = col w /\ db w' = db w)
    /\ (forall i, In (CallColAdd i true) evs ->
          In (CallCreateResume i false) evs ->
          (exists v, In v (records (col w')) /\ vid v = i)
          /\ db w' = db w
          /\ ((forall r, In r (rows (db w)) -> chroma_id r <> i) ->
              forall r, In r (rows (db w')) -> chroma_id r <> i)).
Proof.
  intros H. ingest_cases H;
    (eexists; split; [cbn [logged after_add calls]; reflexivity|]);
    refine (conj _ (conj _ _)).
  all: lazymatch goal with
       | |- forall before i ok after, _ = _ -> _ =>
           intros before i ok after Hsplit; walk_log;
           try match goal with
               | E : CallCreateResume _ _ = CallCreateResume _ _ |- _ =>
                   injection E as ? ?; subst
               end;
           simpl; auto 10
       | |- forall i, In (CallColAdd i false) _ -> _ =>
           intros i Hin; in_log Hin
       | |- forall i, In (CallColAdd i true) _ -> _ =>
           intros i Hin Hin'; in_log Hin; in_log Hin'
       end.
  - injection Hin as <-. split; [|split; reflexivity].
    intros j ok Hj. in_log Hj.
  - injection Hin as <-.
    cbn [after_add col db records vid].
    split; [|split; [reflexivity | auto]].
    eexists. split; [apply in_or_app; right; left; reflexivity | reflexivity].
Qed.

(** C6: whichever step raises, the route raises the same exception and
    does nothing more: a failed extraction or encoding leaves both
    stores untouched and calls neither store; a failed vector write
    leaves both stores untouched and does not call the metadata store; a
    failed metadata write leaves the table untouched and keeps the
    vector record that was just written. *)
Theorem ingest_failure_aborts file name rt occ w w' res :
  ingest_resume extract_text encode file name rt occ w = (w', res) ->
  (forall e,
     extract_text (upload_filename file) (upload_data file) = inl e ->
     res = inl e /\ col w' = col w /\ db w' = db w
     /\ calls w' = (calls w ++ [CallExtract (upload_filename file)])%list)
  /\ (forall text e,
        extract_text (upload_filename file) (upload_data file) = inr text ->
        encode text = inl e ->
        res = inl e /\ col w' = col w /\ db w' = db w
        /\ calls w' = (calls w ++ [CallExtract (upload_filename file);
                                   CallEncode text])%list)
  /\ (forall text emb e,
        extract_text (upload_filename file) (upload_data file) = inr text ->
        encode text = inr emb ->
        add_fault (col w) = Some e ->
        res = inl e /\ col w' = col w /\ db w' = db w
        /\ forall i ok, ~ In (CallCreateResume i ok) (calls w) ->
                        ~ In (CallCreateResume i ok) (calls w'))
  /\ (forall text emb e,
        extract_text (upload_filename file) (upload_data file) = inr text ->
        encode text = inr emb ->
        add_fault (col w) = None ->
        commit_fault (db w) = Some e ->
        res = inl e /\ db w' = db w
        /\ records (col w')
           = (records (col w)
              ++ [mkVectorRecord (entropy w (draws w)) text emb
                    (mkTags name rt occ (upload_filename file))])%list).
Proof.
  intros H. ingest_cases H; refine (conj _ (conj _ (conj _ _))).
  all: try (intros; congruence).
  - intros e' He'. replace e' with e by congruence.
    repeat split; reflexivity.
  - intros text' e' Ht He'.
    assert (text' = text) by congruence. subst text'.
    replace e' with e by congruence.
    repeat split; reflexivity.
  - intros text' emb' e' Ht Hemb Hf.
    replace e' with e by congruence.
    refine (conj eq_refl (conj eq_refl (conj eq_refl _))).
    intros i ok Hold Hnew. cbn [calls] in Hnew.
    apply in_app_or in Hnew. destruct Hnew as [Hnew|Hnew]; [auto|].
    in_log Hnew.
  - intros text' emb' e' Ht Hemb _ Hf.
    assert (text' = text) by congruence. subst text'.
    assert (emb' = emb) by congruence. subst emb'.
    replace e' with e by congruence.
    repeat split; reflexivity.
Qed.

(** C9: a search changes neither store, and an ingestion, however it
    ends, only appends: the records and the rows stored before are
    still there, in their places, followed by at most one new record
    and at most one new row. *)
Theorem stores_only_grow file name rt occ sname srt socc w :
  (col (fst (search sname srt socc w)) = col w
   /\ db (fst (search sname srt socc w)) = db w)
  /\ exists new_records new_rows,
       records (col (fst (ingest_resume extract_text encode file name rt occ w)))
       = (records (col w) ++ new_records)%list
       /\ rows (db (fst (ingest_resume extract_text encode file name rt occ w)))
          = (rows (db w) ++ new_rows)%list
       /\ length new_records <= 1
       /\ length new_rows <= 1.
Proof.
  split.
  - rewrite search_run. split; reflexivity.
  - destruct (ingest_resume extract_text encode file name rt occ w)
      as [w' res] eqn:H.
    ingest_cases H; cbn [fst logged after_add col db records rows].
    + exists [], []. rewrite !app_nil_r. auto.
    + exists [], []. rewrite !app_nil_r. auto.
    + exists [], []. rewrite !app_nil_r. auto.
    + eexists [_], []. rewrite !app_nil_r. simpl. auto.
    + eexists [_], [_]. simpl. auto.
Qed.

End IngestProperties.

(** ** The properties on the example deployment *)








(** Scenario A: one record and one row, under the identifier drawn. *)
Lemma ingest_success_consistent_witness :
  exists v,
    records (col (fst example_run)) = (records (col example_world) ++ [v])%list
    /\ rows (db (fst example_run)) = (rows (db example_world) ++ [example_obj])%list
    /\ vid v = "uuid-new-0"
    /\ chroma_id example_obj = "uuid-new-0".
Proof.
  destruct (@ingest_success_consistent (list Z) example_extract example_encode
              example_upload (Some "Jane Doe") (Some "Engineering")
              (Some "Software Engineer") example_world (fst example_run)
              example_obj)
    as [v [H1 [H2 [H3 [H4 _]]]]].
  - vm_compute. reflexivity.
  - exists v. repeat split; assumption.
Defined.

(** The database is down: the record stays behind, the table is as it
    was. *)
Lemma ingest_write_order_witness :
  (exists v, In v (records (col (fst example_run_db_down)))
             /\ vid v = "uuid-new-0")
  /\ db (fst example_run_db_down) = db example_world_db_down.
Proof.
  destruct (@ingest_write_order (list Z) example_extract example_encode
              example_upload (Some "Jane Doe") (Some "Engineering")
              (Some "Software Engineer") example_world_db_down
              (fst example_run_db_down) (snd example_run_db_down))
    as [evs [Hcalls [_ [_ Horphan]]]].
  - vm_compute. reflexivity.
  - vm_compute in Hcalls. subst evs.
    destruct (Horphan "uuid-new-0") as [Hv [Hdb _]].
    + simpl. auto 10.
    + simpl. auto 10.
    + split; assumption.
Defined.

(** Scenario A: the snippet is the whole of a short text. *)
Lemma ingest_snippet_bound_witness :
  snippet example_obj = Some "Jane Doe, Software Engineer"
  /\ exists text, snippet example_obj = Some (slice_to 300 text)
                  /\ String.length (slice_to 300 text) <= 300.
Proof.
  destruct (@ingest_snippet_bound (list Z) example_extract example_encode
              example_upload (Some "Jane Doe") (Some "Engineering")
              (Some "Software Engineer") example_world (fst example_run)
              example_obj)
    as [text [rest [_ [Hsnip [_ [Hle _]]]]]].
  - vm_compute. reflexivity.
  - split; [reflexivity | exists text; split; assumption].
Defined.

(** Scenario E and its three siblings: each step failing in turn. *)
Lemma ingest_failure_aborts_witness :
  (snd example_run_exe = inl "Unsupported file type"
   /\ col (fst example_run_exe) = col example_world
   /\ db (fst example_run_exe) = db example_world)
  /\ (snd example_run_empty = inl "cannot encode empty text"
      /\ col (fst example_run_empty) = col example_world
      /\ db (fst example_run_empty) = db example_world)
  /\ (snd example_run_index_down = inl "index unavailable"
      /\ col (fst example_run_index_down) = col example_world_index_down
      /\ db (fst example_run_index_down) = db example_world_index_down)
  /\ (snd example_run_db_down = inl "database unavailable"
      /\ db (fst example_run_db_down) = db example_world_db_down
      /\ length (records (col (fst example_run_db_down))) = 4).
Proof.
  refine (conj _ (conj _ (conj _ _))).
  - destruct (@ingest_failure_aborts (list Z) example_extract example_encode
                example_upload_exe (Some "Jane Doe") (Some "Engineering")
                (Some "Software Engineer") example_world
                (fst example_run_exe) (snd example_run_exe))
      as [H _]; [vm_compute; reflexivity|].
    destruct (H "Unsupported file type") as [H1 [H2 [H3 _]]];
      [reflexivity | repeat split; assumption].
  - destruct (@ingest_failure_aborts (list Z) example_extract example_encode
                example_upload_empty (Some "Jane Doe") (Some "Engineering")
                (Some "Software Engineer") example_world
                (fst example_run_empty) (snd example_run_empty))
      as [_ [H _]]; [vm_compute; reflexivity|].
    destruct (H "" "cannot encode empty text") as [H1 [H2 [H3 _]]];
      [reflexivity | reflexivity | repeat split; assumption].
  - destruct (@ingest_failure_aborts (list Z) example_extract example_encode
                example_upload (Some "Jane Doe") (Some "Engineering")
                (Some "Software Engineer") example_world_index_down
                (fst example_run_index_down) (snd example_run_index_down))
      as [_ [_ [H _]]]; [vm_compute; reflexivity|].
    destruct (H "Jane Doe, Software Engineer" [27%Z] "index unavailable")
      as [H1 [H2 [H3 _]]];
      [reflexivity | reflexivity | reflexivity | repeat split; assumption].
  - destruct (@ingest_failure_aborts (list Z) example_extract example_encode
                example_upload (Some "Jane Doe") (Some "Engineering")
                (Some "Software Engineer") example_world_db_down
                (fst example_run_db_down) (snd example_run_db_down))
      as [_ [_ [_ H]]]; [vm_compute; reflexivity|].
    destruct (H "Jane Doe, Software Engineer" [27%Z] "database unavailable")
      as [H1 [H2 H3]];
      [reflexivity | reflexivity | reflexivity | reflexivity |].
    refine (conj H1 (conj H2 _)). rewrite H3. reflexivity.
Defined.

(** ** Start-up *)

Section StartupProperties.

Variable Vec : Type.
Implicit Types c : Client Vec.

Lemma find_collection_snoc n (m : string) (k : Collection Vec) c :
  find_collection n (c ++ [(m, k)])%list
  = match find_collection n c with
    | Some x => Some x
    | None => if String.eqb m n then Some k else None
    end.
Proof.
  induction c as [|[m' k'] c IH]; simpl.
  - reflexivity.
  - destruct (String.eqb m' n); [reflexivity | exact IH].
Qed.

(** X1: connecting to Chroma gets the collection or creates it.  A
    collection stored under the name is handed back as it is and the
    client is left alone; when there is none, an empty one is stored
    under the name.  Either way no exception leaves the block, the
    collection handed back is the one now stored, every other collection
    is untouched, and connecting a second time changes nothing. *)
Theorem connect_chroma_get_or_create c :
  (forall k, find_collection COLLECTION c = Some k ->
             connect_chroma c = (c, inr k))
  /\ (find_collection COLLECTION c = None ->
      exists k, connect_chroma c = ((c ++ [(COLLECTION, k)])%list, inr k)
                /\ records k = [])
  /\ (exists k, snd (connect_chroma c) = inr k
                /\ find_collection COLLECTION (fst (connect_chroma c)) = Some k)
  /\ connect_chroma (fst (connect_chroma c)) = connect_chroma c
  /\ (forall n, n <> COLLECTION ->
                find_collection n (fst (connect_chroma c)) = find_collection n c).
Proof.
  unfold connect_chroma, get_collection, create_collection.
  destruct (find_collection COLLECTION c) as [k|] eqn:Hfind;
    refine (conj _ (conj _ (conj _ (conj _ _)))); cbn [fst snd].
  - intros k' Hk'. congruence.
  - discriminate.
  - exists k. auto.
  - rewrite Hfind. reflexivity.
  - reflexivity.
  - discriminate.
  - intros _. eexists. split; reflexivity.
  - eexists. split; [reflexivity|].
    rewrite find_collection_snoc, Hfind, String.eqb_refl. reflexivity.
  - rewrite find_collection_snoc, Hfind, String.eqb_refl. reflexivity.
  - intros n Hn. rewrite find_collection_snoc.
    destruct (find_collection n c); [reflexivity|].
    destruct (String.eqb COLLECTION n) eqn:E; [|reflexivity].
    apply String.eqb_eq in E. congruence.
Qed.

End StartupProperties.

(** ** Letter case and empty columns in a search *)

Lemma lower_meta_fixed c : is_meta (lower c) = true -> lower c = c.
Proof.
  destruct c as [[] [] [] [] [] [] [] []]; vm_compute; intros H;
    first [reflexivity | discriminate H].
Qed.

Lemma meta_lower x : is_meta x = true -> lower x = x.
Proof.
  destruct x as [[] [] [] [] [] [] [] []]; vm_compute; intros H;
    first [reflexivity | discriminate H].
Qed.

Lemma lower_idem c : lower (lower c) = lower c.
Proof. destruct c as [[] [] [] [] [] [] [] []]; reflexivity. Qed.

(** Characters that agree up to case agree on being a given
    metacharacter. *)
Lemma eqb_meta_same c d x :
  is_meta x = true -> lower c = lower d -> Ascii.eqb c x = Ascii.eqb d x.
Proof.
  intros Hx Hcd.
  assert (forall a b, lower a = lower b -> a = x -> b = x) as Hpush.
  { intros a b Hab ->. rewrite (meta_lower _ Hx) in Hab.
    rewrite <- (lower_meta_fixed b); [congruence|].
    rewrite <- Hab. exact Hx. }
  destruct (Ascii.eqb c x) eqn:Ec, (Ascii.eqb d x) eqn:Ed; try reflexivity.
  - apply Ascii.eqb_eq in Ec. apply Ascii.eqb_neq in Ed.
    destruct Ed. exact (Hpush c d Hcd Ec).
  - apply Ascii.eqb_eq in Ed. apply Ascii.eqb_neq in Ec.
    destruct Ec. exact (Hpush d c (eq_sym Hcd) Ed).
Qed.

Lemma tok_of_same c d : lower c = lower d -> tok_same (tok_of c) (tok_of d).
Proof.
  intros H. unfold tok_of.
  rewrite (@eqb_meta_same c d percent eq_refl H).
  rewrite (@eqb_meta_same c d underscore eq_refl H).
  destruct (Ascii.eqb d percent); [exact I|].
  destruct (Ascii.eqb d underscore); [exact I | exact H].
Qed.

Lemma like_scan_same p : forall p' pending,
  lower_string p = lower_string p' ->
  match like_scan pending p, like_scan pending p' with
  | Some ts, Some ts' => Forall2 tok_same ts ts'
  | None, None => True
  | _, _ => False
  end.
Proof.
  induction p as [|c p IH]; intros [|d p'] pending H; simpl in H;
    try discriminate H.
  - simpl. destruct pending; [exact I | constructor].
  - injection H as Hcd Hp. simpl.
    rewrite (@eqb_meta_same c d like_escape eq_refl Hcd).
    destruct pending.
    + specialize (IH p' false Hp).
      destruct (like_scan false p), (like_scan false p'); simpl; try exact IH.
      constructor; [exact Hcd | exact IH].
    + destruct (Ascii.eqb d like_escape).
      * exact (IH p' true Hp).
      * specialize (IH p' false Hp).
        destruct (like_scan false p), (like_scan false p'); simpl; try exact IH.
        constructor; [apply tok_of_same, Hcd | exact IH].
Qed.

Lemma lower_string_app a b :
  lower_string (a ++ b) = lower_string a ++ lower_string b.
Proof. induction a as [|c a IH]; simpl; congruence. Qed.

Lemma pattern_of_same v v' :
  lower_string v = lower_string v' ->
  Forall2 tok_same (pattern_of v) (pattern_of v').
Proof.
  intros H.
  assert (lower_string ("%" ++ v ++ "%") = lower_string ("%" ++ v' ++ "%")) as Hp.
  { rewrite !lower_string_app, H. reflexivity. }
  pose proof (like_scan_same _ _ false Hp) as Hs.
  fold (like_tokens ("%" ++ v ++ "%")) in Hs.
  fold (like_tokens ("%" ++ v' ++ "%")) in Hs.
  rewrite !pattern_of_tokens in Hs. exact Hs.
Qed.

(** Matching looks at pattern and text up to letter case only. *)
Lemma like_match_same ts : forall ts' s s',
  Forall2 tok_same ts ts' ->
  lower_string s = lower_string s' ->
  like_match ts s = like_match ts' s'.
Proof.
  induction ts as [|t ts IH]; intros ts' s s' Hts Hs; inversion Hts as [|t0 t' ts0 ts1 Ht Hrest]; subst.
  - destruct s, s'; simpl in Hs; try discriminate Hs; reflexivity.
  - destruct t, t'; simpl in Ht; try contradiction.
    + revert s' Hs. induction s as [|c s IHs]; intros [|d s'] Hs;
        simpl in Hs; try discriminate Hs.
      * rewrite !like_match_percent. rewrite (IH ts1 "" "" Hrest eq_refl).
        reflexivity.
      * injection Hs as Hcd Hs.
        rewrite (like_match_percent ts (String c s)).
        rewrite (like_match_percent ts1 (String d s')).
        rewrite (IHs s' Hs).
        rewrite (IH ts1 (String c s) (String d s') Hrest);
          [reflexivity | simpl; congruence].
    + destruct s as [|c s], s' as [|d s']; simpl in Hs; try discriminate Hs.
      * reflexivity.
      * injection Hs as _ Hs. simpl. apply IH; assumption.
    + destruct s as [|a s], s' as [|b s']; simpl in Hs; try discriminate Hs.
      * reflexivity.
      * injection Hs as Hab Hs. simpl.
        rewrite (IH ts1 s s' Hrest Hs). unfold same_letter.
        rewrite Ht, Hab. reflexivity.
Qed.

Lemma field_like_same a a' column column' :
  same_ci a a' -> same_ci column column' ->
  field_like a column = field_like a' column'.
Proof.
  intros Ha Hc.
  destruct a as [[|c v]|], a' as [[|c' v']|]; simpl in Ha;
    try contradiction; try discriminate Ha; try reflexivity.
  cbn [field_like].
  destruct column as [s|], column' as [s'|]; simpl in Hc; try contradiction;
    [|reflexivity].
  rewrite !is_true_ilike_some.
  apply like_match_same; [apply pattern_of_same; exact Ha | exact Hc].
Qed.

Lemma same_ci_refl a : same_ci a a.
Proof. destruct a; simpl; auto. Qed.

Lemma like_match_percents s : like_match (pattern_of "%") s = true.
Proof.
  change (pattern_of "%") with [AnyString; AnyString; AnyString].
  apply like_match_percent_here, like_match_percent_here, like_match_only_percent.
Qed.

Section SearchExtras.

Variable Vec : Type.
Implicit Types w : World Vec.

(** X2: the letter case of the arguments does not matter: two searches
    whose arguments differ in letter case only return the same rows. *)
Theorem search_ignores_query_case name name' rt rt' occ occ' w :
  same_ci name name' -> same_ci rt rt' -> same_ci occ occ' ->
  snd (search name rt occ w) = snd (search name' rt' occ' w).
Proof.
  intros Hn Ht Ho. rewrite !search_run. cbn [snd]. f_equal.
  apply filter_ext. intros r. unfold search_keeps.
  destruct name as [[|c v]|], name' as [[|c' v']|]; simpl in Hn;
    try contradiction; try discriminate Hn.
  - f_equal; apply field_like_same; auto using same_ci_refl.
  - apply field_like_same; [exact Hn | apply same_ci_refl].
  - f_equal; apply field_like_same; auto using same_ci_refl.
Qed.

(** X3: the letter case of the stored values does not matter: of two
    stored rows that differ in the letter case of name, type and
    occupation only, a search returns both or neither. *)
Theorem search_ignores_stored_case name rt occ w r r' l :
  snd (search name rt occ w) = inr l ->
  In r (rows (db w)) -> In r' (rows (db w)) ->
  same_ci_row r r' ->
  (In r l <-> In r' l).
Proof.
  intros Hl Hr Hr' [Hn [Ht Ho]].
  rewrite search_run in Hl. cbn [snd] in Hl. injection Hl as <-.
  rewrite !filter_In.
  assert (search_keeps field_like name rt occ r
          = search_keeps field_like name rt occ r') as E.
  { unfold search_keeps. destruct name as [[|c v]|].
    - f_equal; apply field_like_same; auto using same_ci_refl.
    - apply field_like_same; [apply same_ci_refl | exact Hn].
    - f_equal; apply field_like_same; auto using same_ci_refl. }
  rewrite E. tauto.
Qed.

(** X4: a row whose column is NULL is never returned by a search that
    filters on that column: a search by name returns rows with a name
    only, a search by type or occupation rows with that column filled
    in.  Even the pattern that matches everything does not bring them
    back: the name "%" returns exactly the rows that have a name. *)
Theorem search_skips_null_columns name rt occ w :
  (exists l, snd (search name rt occ w) = inr l
     /\ Forall (fun r =>
          if truthy name then not_null (Models.name r) = true
          else (truthy rt = true -> not_null (Models.resumetype r) = true)
               /\ (truthy occ = true -> not_null (Models.occupation r) = true))
          l)
  /\ snd (search (Some "%") rt occ w)
     = inr (filter (fun r => not_null (Models.name r)) (rows (db w)))
  /\ snd (search None (Some "%") None w)
     = inr (filter (fun r => not_null (Models.resumetype r)) (rows (db w))).
Proof.
  rewrite !search_run. cbn [snd]. refine (conj _ (conj _ _)).
  - eexists. split; [reflexivity|].
    apply Forall_forall. intros r Hr. apply filter_In in Hr.
    destruct Hr as [_ Hr]. unfold search_keeps in Hr.
    destruct name as [[|c v]|]; cbn [truthy].
    + apply andb_prop in Hr. destruct Hr as [H1 H2]. split; intros Ht.
      * destruct rt as [[|c v]|]; try discriminate Ht.
        destruct (Models.resumetype r); [reflexivity | discriminate H1].
      * destruct occ as [[|c v]|]; try discriminate Ht.
        destruct (Models.occupation r); [reflexivity | discriminate H2].
    + destruct (Models.name r); [reflexivity | discriminate Hr].
    + apply andb_prop in Hr. destruct Hr as [H1 H2]. split; intros Ht.
      * destruct rt as [[|c v]|]; try discriminate Ht.
        destruct (Models.resumetype r); [reflexivity | discriminate H1].
      * destruct occ as [[|c v]|]; try discriminate Ht.
        destruct (Models.occupation r); [reflexivity | discriminate H2].
  - f_equal. apply filter_ext. intros r. cbn [search_keeps field_like].
    destruct (Models.name r) as [s|]; [|reflexivity].
    rewrite is_true_ilike_some. apply like_match_percents.
  - f_equal. apply filter_ext. intros r. cbn [search_keeps field_like].
    rewrite andb_true_r.
    destruct (Models.resumetype r) as [s|]; [|reflexivity].
    rewrite is_true_ilike_some. apply like_match_percents.
Qed.

(** X5: a search asks the metadata store once and does nothing else: it
    calls neither the extractor nor the encoder nor the vector index,
    draws no identifier, and leaves the identifier source as it was. *)
Theorem search_only_queries name rt occ w :
  calls (fst (search name rt occ w)) = (calls w ++ [CallQueryResumes])%list
  /\ draws (fst (search name rt occ w)) = draws w
  /\ entropy (fst (search name rt occ w)) = entropy w
  /\ col (fst (search name rt occ w)) = col w.
Proof. rewrite search_run. repeat split. Qed.

End SearchExtras.

(** ** Ingestion and search together *)

Lemma field_like_contains q stored :
  q <> "" -> no_escape q = true -> ci_substring q stored ->
  field_like (Some q) (Some stored) = true.
Proof.
  intros Hq Hesc Hsub. destruct q as [|c v]; [congruence|].
  cbn [field_like]. rewrite is_true_ilike_some, (pattern_of_plain _ Hesc).
  apply like_match_contains_complete, contains_ci_iff, Hsub.
Qed.

Section IngestExtras.

Variable Vec : Type.
Variable extract_text : string -> list Byte.byte -> Exn + string.
Variable encode : string -> Exn + Vec.
Implicit Types w : World Vec.

(** Case analysis on a run of the ingestion, by the step at which it
    stopped. *)
Ltac run_cases H :=
  rewrite ingest_resume_run in H; cbv zeta in H;
  destruct (extract_text _ _) as [?e|?text] eqn:?Hextract in H;
  [| destruct (encode _) as [?e|?emb] eqn:?Hencode in H;
     [| destruct (add_fault _) as [?e|] eqn:?Hadd in H;
        [| destruct (commit_fault _) as [?e|] eqn:?Hcommit in H ]]];
  try discriminate H; injection H as ? ?; subst.


(** X6: after a successful ingestion the vector record and the metadata
    row describe the same document: the record holds the whole extracted
    text and the embedding the encoder returned for it, its tags are the
    name, type, occupation and file name of the row, which are those of
    the request, and the row's snippet is a prefix of the record's
    text. *)
Theorem ingest_record_matches_row file name rt occ w w' obj :
  ingest_resume extract_text encode file name rt occ w = (w', inr obj) ->
  exists v text emb sn rest,
    records (col w') = (records (col w) ++ [v])%list
    /\ extract_text (upload_filename file) (upload_data file) = inr text
    /\ encode text = inr emb
    /\ document v = text
    /\ embedding v = emb
    /\ metadata v = mkTags (Models.name obj) (Models.resumetype obj)
                      (Models.occupation obj) (Models.filename obj)
    /\ Models.name obj = name
    /\ Models.resumetype obj = rt
    /\ Models.occupation obj = occ
    /\ Models.filename obj = upload_filename file
    /\ snippet obj = Some sn
    /\ document v = sn ++ rest.
Proof.
  intros H. run_cases H.
  destruct (slice_to_prefix 300 text) as [rest Hrest].
  exists (mkVectorRecord (entropy w (draws w)) text emb
            (mkTags name rt occ (upload_filename file))),
         text, emb, (slice_to 300 text), rest.
  cbn [after_add created_row col records document embedding metadata
       Models.name Models.resumetype Models.occupation Models.filename snippet].
  repeat (split; [reflexivity || assumption|]). exact Hrest.
Qed.

(** X7: a successful ingestion changes the answer of a search by at
    most one row: the rows found before are found again, in the same
    order, and the new row, if it is found, comes last. *)
Theorem search_after_ingest file name rt occ w w' obj sname srt socc :
  ingest_resume extract_text encode file name rt occ w = (w', inr obj) ->
  exists old,
    snd (search sname srt socc w) = inr old
    /\ (snd (search sname srt socc w') = inr old
        \/ snd (search sname srt socc w') = inr (old ++ [obj])%list).
Proof.
  intros H. run_cases H. rewrite !search_run. cbn [snd].
  eexists. split; [reflexivity|].
  cbn [after_add db rows]. rewrite filter_app. cbn [filter].
  destruct (search_keeps field_like sname srt socc _).
  - right. reflexivity.
  - left. rewrite app_nil_r. reflexivity.
Qed.

(** X8: a document ingested under a name is found by that name, and by
    every part of it, whatever the letter case: after a successful
    ingestion with name [n], a search by a non-empty name without
    backslash that is a case-insensitive substring of [n] returns the
    rows it returned before, followed by the new row. *)
Theorem ingested_found_by_name file n rt occ w w' obj q srt socc :
  ingest_resume extract_text encode file (Some n) rt occ w = (w', inr obj) ->
  q <> "" -> no_escape q = true -> ci_substring q n ->
  exists old,
    snd (search (Some q) srt socc w) = inr old
    /\ snd (search (Some q) srt socc w') = inr (old ++ [obj])%list.
Proof.
  intros H Hq Hesc Hsub. run_cases H. rewrite !search_run. cbn [snd].
  eexists. split; [reflexivity|].
  cbn [after_add db rows]. rewrite filter_app. cbn [filter].
  assert (search_keeps field_like (Some q) srt socc
            (created_row (db w) (Some n) rt occ (upload_filename file)
               (entropy w (draws w)) text) = true) as E.
  { destruct q as [|c v]; [congruence|]. cbn [search_keeps created_row Models.name].
    apply field_like_contains; assumption. }
  rewrite E. reflexivity.
Qed.

(** X9: an ingestion that raises changes the answer of no search, at
    whichever step it raised (a record left behind in the vector index
    is invisible to searches). *)
Theorem failed_ingest_keeps_searches file name rt occ w w' e sname srt socc :
  ingest_resume extract_text encode file name rt occ w = (w', inl e) ->
  snd (search sname srt socc w') = snd (search sname srt socc w).
Proof.
  intros H. run_cases H; rewrite !search_run; reflexivity.
Qed.


(** ** Histories of requests *)

Implicit Types sv : Server Vec.


Lemma handle_sessions rq sv :
  sessions_opened (fst (handle extract_text encode rq sv))
  = sessions_opened sv + (if uses_session rq then 1 else 0)
  /\ sessions_closed (fst (handle extract_text encode rq sv))
     = sessions_closed sv + (if uses_session rq then 1 else 0).
Proof.
  destruct rq as [|file n t o|n t o]; unfold handle, with_session;
    cbn [uses_session].
  - cbn [fst]. lia.
  - destruct (ingest_resume extract_text encode file n t o (world sv)).
    cbn [fst sessions_opened sessions_closed]. lia.
  - destruct (search n t o (world sv)).
    cbn [fst sessions_opened sessions_closed]. lia.
Qed.

Lemma serve_cons rq rest sv :
  fst (serve extract_text encode (rq :: rest) sv)
  = fst (serve extract_text encode rest (fst (handle extract_text encode rq sv))).
Proof.
  cbn [serve]. destruct (handle extract_text encode rq sv) as [sv1 r].
  cbn [fst]. destruct (serve extract_text encode rest sv1). reflexivity.
Qed.

(** X10: every session opened for a request is closed again, also when
    the route raises: over any history of requests the sessions opened
    and the sessions closed both grow by the number of ingest and search
    requests, and every request gets its response. *)
Theorem serve_closes_sessions rqs sv :
  sessions_opened (fst (serve extract_text encode rqs sv))
  = sessions_opened sv + length (filter uses_session rqs)
  /\ sessions_closed (fst (serve extract_text encode rqs sv))
     = sessions_closed sv + length (filter uses_session rqs)
  /\ length (snd (serve extract_text encode rqs sv)) = length rqs.
Proof.
  revert sv. induction rqs as [|rq rest IH]; intros sv.
  - cbn [serve fst snd filter length]. lia.
  - destruct (IH (fst (handle extract_text encode rq sv))) as [Ho [Hc Hl]].
    destruct (handle_sessions rq sv) as [Ho1 Hc1].
    rewrite serve_cons, Ho, Hc, Ho1, Hc1.
    assert (length (snd (serve extract_text encode (rq :: rest) sv))
            = S (length rest)) as Hlen.
    { cbn [serve]. destruct (handle extract_text encode rq sv) as [sv1 r].
      cbn [fst] in Hl.
      destruct (serve extract_text encode rest sv1). cbn [snd length] in *.
      congruence. }
    rewrite Hlen. cbn [filter length].
    destruct (uses_session rq); cbn [length]; lia.
Qed.



End IngestExtras.

(** ** The three filters of [query_resumes] together *)


(** ** The further properties on the example deployment *)

(** "JANE" and "jane" find the same rows. *)
Lemma search_ignores_query_case_witness :
  snd (search (Some "JANE") None None example_world)
  = snd (search (Some "jane") None None example_world).
Proof.
  apply (@search_ignores_query_case (list Z) (Some "JANE") (Some "jane")
           None None None None example_world); simpl; auto.
Defined.

(** Jane's row and its copy in capitals are found together. *)
Lemma search_ignores_stored_case_witness :
  In row_jane [row_jane; row_jane_caps]
  <-> In row_jane_caps [row_jane; row_jane_caps].
Proof.
  apply (@search_ignores_stored_case (list Z) (Some "Jane") None None
           example_world_caps row_jane row_jane_caps).
  - reflexivity.
  - simpl. auto.
  - simpl. auto.
  - repeat split; reflexivity.
Defined.

(** Scenario A: record and row agree. *)
Lemma ingest_record_matches_row_witness :
  exists (v : VectorRecord (list Z)) sn rest,
    document v = "Jane Doe, Software Engineer"
    /\ metadata v = mkTags (Some "Jane Doe") (Some "Engineering")
                      (Some "Software Engineer") "r1.txt"
    /\ snippet example_obj = Some sn
    /\ document v = sn ++ rest.
Proof.
  destruct (@ingest_record_matches_row (list Z) example_extract example_encode
              example_upload (Some "Jane Doe") (Some "Engineering")
              (Some "Software Engineer") example_world (fst example_run)
              example_obj)
    as [v [text [emb [sn [rest [_ [Hx [_ [Hd [_ [Hm [_ [_ [_ [_ [Hs Hp]]]]]]]]]]]]]]]].
  - vm_compute. reflexivity.
  - exists v, sn, rest. vm_compute in Hx. injection Hx as <-.
    repeat split; assumption.
Defined.

(** Scenario B: after Jane Doe was ingested, "jane" finds the row found
    before and the new one behind it. *)
Lemma search_after_ingest_witness :
  exists old,
    snd (search (Some "jane") None None example_world) = inr old
    /\ (snd (search (Some "jane") None None (fst example_run)) = inr old
        \/ snd (search (Some "jane") None None (fst example_run))
           = inr (old ++ [example_obj])%list).
Proof.
  apply (@search_after_ingest (list Z) example_extract example_encode
           example_upload (Some "Jane Doe") (Some "Engineering")
           (Some "Software Engineer") example_world (fst example_run)
           example_obj (Some "jane") None None).
  vm_compute. reflexivity.
Defined.

Lemma ingested_found_by_name_witness :
  exists old,
    snd (search (Some "DOE") None None example_world) = inr old
    /\ snd (search (Some "DOE") None None (fst example_run))
       = inr (old ++ [example_obj])%list.
Proof.
  apply (@ingested_found_by_name (list Z) example_extract example_encode
           example_upload "Jane Doe" (Some "Engineering")
           (Some "Software Engineer") example_world (fst example_run)
           example_obj "DOE" None None).
  - vm_compute. reflexivity.
  - discriminate.
  - reflexivity.
  - exists "jane ", "". reflexivity.
Defined.

(** The database is down: searches answer as before. *)
Lemma failed_ingest_keeps_searches_witness :
  snd (search (Some "jane") None None (fst example_run_db_down))
  = snd (search (Some "jane") None None example_world_db_down).
Proof.
  apply (@failed_ingest_keeps_searches (list Z) example_extract example_encode
           example_upload (Some "Jane Doe") (Some "Engineering")
           (Some "Software Engineer") example_world_db_down
           (fst example_run_db_down) "database unavailable"
           (Some "jane") None None).
  vm_compute. reflexivity.
Defined.



